(** * DI-IT2-FLC-FM: double-input interval type-2 fuzzy position controller

    A shallow embedding of
    [center_alignment/controllers/src/DI-IT2-FLC-FM.cpp].

    Numbers.  The program computes on C++ [double]s.  The embedding takes
    every [double] as an exact rational ([Q]); literals stand at their
    decimal value ([0.004] is [4/1000], [M_PI] is the decimal literal of
    [math.h]).  Rounding, infinities and NaN are outside the model; the one
    place where the program can leave the finite numbers, a division by
    zero in the three-region compositor, is made explicit with [option].
    Rationals are compared with [==] ([Qeq]), since [Q] has no normal
    forms.

    [abs] is the [double] overload ([std::abs]): the program writes [cout]
    and [endl] unqualified, so namespace [std] is open where [phi] and
    [denormalizeAngle] are compiled. *)

From Stdlib Require Import String Ascii QArith Qabs Lqa Lia ZArith List Bool.
Import ListNotations.

Local Open Scope Q_scope.

(** ** Comparisons of the source, as booleans *)

Module Cmp.

(** [a <= b] *)
Definition le (a b : Q) : bool := Qle_bool a b.

(** [a < b] *)
Definition lt (a b : Q) : bool := negb (Qle_bool b a).

(** [a >= b] *)
Definition ge (a b : Q) : bool := Qle_bool b a.

(** [a > b] *)
Definition gt (a b : Q) : bool := negb (Qle_bool a b).

End Cmp.

(** ** Scalar primitives *)

(** [M_PI] of [math.h]. *)
Definition M_PI : Q := 314159265358979323846 # 100000000000000000000.

(** [DI_IT2_FLC_FM::denormalizeAngle] *)
Definition denormalizeAngle (a1 a2 : Q) : Q :=
  if Cmp.gt (Qabs (a2 - a1)) M_PI then
    if Cmp.lt a2 a1 then a1 - 2 * M_PI else a1 + 2 * M_PI
  else a1.

(** [DI_IT2_FLC_FM::bound] *)
Definition bound (n : Q) : Q :=
  if Cmp.le n (-1) then -1 else if Cmp.ge n 1 then 1 else n.

(** [DI_IT2_FLC_FM::phi] *)
Definition phi (sigma1 sigma2 : Q) : Q :=
  sigma1 + sigma2 - (Qabs sigma1 * sigma2 + sigma1 * Qabs sigma2) / 2.

(** ** The three-region compositor

    [phi1], [phi2], [phi3], [omega12] and [omega23] divide without a guard.
    On [double]s a zero divisor gives an infinity or a NaN, which then
    spreads through the sum; the embedding returns [None] for every such
    result and [Some q] for a finite one.  The functions read the globals
    [alpha1] and [alpha2], here their first two arguments. *)

Module Compositor.

(** [n / d] of the source. *)
Definition div (n d : Q) : option Q :=
  if Qeq_bool d 0 then None else Some (n / d).

Definition lift2 (f : Q -> Q -> Q) (a b : option Q) : option Q :=
  match a, b with
  | Some u, Some v => Some (f u v)
  | _, _ => None
  end.

Definition add := lift2 Qplus.
Definition sub := lift2 Qminus.
Definition neg (a : option Q) : option Q := option_map Qopp a.

Section Alpha.
Variables alpha1 alpha2 : Q.

(** The divisors, in the order in which the source writes them. *)
Definition phi1_den1 (sigma1 sigma2 : Q) : Q :=
  (sigma1 + 1)*(sigma2 + 1) + alpha1*alpha2*sigma1*sigma2
  - alpha1*alpha2*sigma1*(sigma2 + 1) - alpha1*alpha2*sigma2*(sigma1 + 1).

Definition phi1_den2 (sigma1 sigma2 : Q) : Q :=
  sigma1*sigma2 - sigma1*(sigma2 + 1) - sigma2*(sigma1 + 1)
  + alpha1*alpha2*(sigma1 + 1)*(sigma2 + 1).

Definition phi2_den1 (sigma1 sigma2 : Q) : Q :=
  sigma1*(sigma2 + 1) - alpha1*alpha2*sigma1*sigma2
  + alpha1*alpha2*sigma2*(sigma1 - 1) - alpha1*alpha2*(sigma1 - 1)*(sigma2 + 1).

Definition phi2_den2 (sigma1 sigma2 : Q) : Q :=
  sigma2*(sigma1 - 1) - alpha1*alpha2*sigma1*sigma2
  + alpha1*alpha2*sigma1*(sigma2 + 1) - alpha1*alpha2*(sigma1 - 1)*(sigma2 + 1).

Definition phi3_den1 (sigma1 sigma2 : Q) : Q :=
  (sigma1 - 1)*(sigma2 - 1) + alpha1*alpha2*sigma1*sigma2
  - alpha1*alpha2*sigma1*(sigma2 - 1) - alpha1*alpha2*sigma2*(sigma1 - 1).

Definition phi3_den2 (sigma1 sigma2 : Q) : Q :=
  sigma1*sigma2 - sigma1*(sigma2 - 1) - sigma2*(sigma1 - 1)
  + alpha1*alpha2*(sigma1 - 1)*(sigma2 - 1).

(** [DI_IT2_FLC_FM::phi1] *)
Definition phi1 (sigma1 sigma2 : Q) : option Q :=
  add
    (div ((alpha1*alpha2*sigma1*(sigma2 + 1))/2 - (alpha1*alpha2*sigma1*sigma2)/2
          + (alpha1*alpha2*sigma2*(sigma1 + 1))/2)
         (phi1_den1 sigma1 sigma2))
    (div ((sigma1*(sigma2 + 1))/2 - (sigma1*sigma2)/2 + (sigma2*(sigma1 + 1))/2)
         (phi1_den2 sigma1 sigma2)).

(** [DI_IT2_FLC_FM::phi2] *)
Definition phi2 (sigma1 sigma2 : Q) : option Q :=
  sub
    (div ((sigma1*(sigma2 + 1))/2 - (alpha1*alpha2*sigma2*(sigma1 - 1))/2)
         (phi2_den1 sigma1 sigma2))
    (div ((sigma2*(sigma1 - 1))/2 - (alpha1*alpha2*sigma1*(sigma2 + 1))/2)
         (phi2_den2 sigma1 sigma2)).

(** [DI_IT2_FLC_FM::phi3] *)
Definition phi3 (sigma1 sigma2 : Q) : option Q :=
  sub
    (neg (div ((alpha1*alpha2*sigma1*(sigma2 - 1))/2 - (alpha1*alpha2*sigma1*sigma2)/2
               + (alpha1*alpha2*sigma2*(sigma1 - 1))/2)
              (phi3_den1 sigma1 sigma2)))
    (div ((sigma1*(sigma2 - 1))/2 - (sigma1*sigma2)/2 + (sigma2*(sigma1 - 1))/2)
         (phi3_den2 sigma1 sigma2)).

(** [DI_IT2_FLC_FM::omega12] *)
Definition omega12 (sigma1 : Q) : option Q :=
  if Cmp.le sigma1 0
  then div (- alpha1 * alpha2 * sigma1) (sigma1 - alpha1 * alpha2 * sigma1 + 1)
  else div (- sigma1) (sigma1 + alpha1 * alpha2 - alpha1 * alpha2 * sigma1).

(** [DI_IT2_FLC_FM::omega23] *)
Definition omega23 (sigma1 : Q) : option Q :=
  if Cmp.le sigma1 0
  then div (- sigma1) (alpha1 * alpha2 - sigma1 + alpha1 * alpha2 * sigma1)
  else div (- alpha1 * alpha2 * sigma1) (alpha1 * alpha2 * sigma1 - sigma1 + 1).

End Alpha.

End Compositor.

(** ** Vectors and messages *)

(** The four coefficients of an Eigen [Vector4d]: x, y, z and yaw. *)
Inductive Index : Set := i0 | i1 | i2 | i3.

Record Vector4d : Set := vec4 { c0 : Q; c1 : Q; c2 : Q; c3 : Q }.

(** [v(i)] *)
Definition coeff (v : Vector4d) (i : Index) : Q :=
  match i with i0 => c0 v | i1 => c1 v | i2 => c2 v | i3 => c3 v end.

(** [v(i) = q] *)
Definition set_coeff (v : Vector4d) (i : Index) (q : Q) : Vector4d :=
  match i with
  | i0 => vec4 q (c1 v) (c2 v) (c3 v)
  | i1 => vec4 (c0 v) q (c2 v) (c3 v)
  | i2 => vec4 (c0 v) (c1 v) q (c3 v)
  | i3 => vec4 (c0 v) (c1 v) (c2 v) q
  end.

Definition vzero : Vector4d := vec4 0 0 0 0.

(** [u + v], [u - v] and [v * k] of Eigen. *)
Definition vadd (u v : Vector4d) : Vector4d :=
  vec4 (c0 u + c0 v) (c1 u + c1 v) (c2 u + c2 v) (c3 u + c3 v).

Definition vsub (u v : Vector4d) : Vector4d :=
  vec4 (c0 u - c0 v) (c1 u - c1 v) (c2 u - c2 v) (c3 u - c3 v).

Definition vscale (v : Vector4d) (k : Q) : Vector4d :=
  vec4 (c0 v * k) (c1 v * k) (c2 v * k) (c3 v * k).

Module geometry_msgs.
(** [geometry_msgs::Quaternion], the type of the command. *)
Record Quaternion : Set := quaternion { x : Q; y : Q; z : Q; w : Q }.
End geometry_msgs.

(** What [ros::spinOnce] can hand to the four callbacks.  An odometry
    message arrives with its orientation as a quaternion, from which
    [odometryCallback] takes the ZYX yaw with [tf]; the message of the
    embedding carries that yaw. *)
Inductive Message : Set :=
| OdometryMsg (position : Vector4d) (twist : Vector4d)
| TrajectoryMsg (q : geometry_msgs.Quaternion)
| TrajectoryVelocityMsg (q : geometry_msgs.Quaternion)
| ConfigMsg (cfg_k_p cfg_k_d cfg_k_a cfg_k_b cfg_alpha_p cfg_alpha_d : Q).

(** ** Controller state

    The globals of the program and the members of the controller, followed
    by the two locals of [run] that live across ticks ([c], the number of
    commands so far, and [velocity_msg], the command under construction).
    [c] is an [int] that the program only increments; the embedding counts
    in [Z], which agrees with it for the first [2^31 - 1] commands.  The
    local [time] holds wall-clock measurements and is left out. *)
Record State : Set := mkState {
  pose : Vector4d;
  pose_d : Vector4d;
  velocity : Vector4d;
  velocity_d : Vector4d;
  error : Vector4d;
  error_d : Vector4d;
  error_i : Vector4d;
  sigma1 : Vector4d;
  sigma2 : Vector4d;
  phi_p : Vector4d;
  phi_i : Vector4d;
  k_p : Q;
  k_d : Q;
  k_a : Q;
  k_b : Q;
  alpha1 : Q;
  alpha2 : Q;
  new_odometry : bool;
  c : Z;
  velocity_msg : geometry_msgs.Quaternion
}.

(** ** Callbacks *)

(** [odometryCallback] *)
Definition odometryCallback (position twist : Vector4d) (s : State) : State :=
  mkState position (pose_d s) twist (velocity_d s)
          (error s) (error_d s) (error_i s) (sigma1 s) (sigma2 s)
          (phi_p s) (phi_i s)
          (k_p s) (k_d s) (k_a s) (k_b s) (alpha1 s) (alpha2 s)
          true (c s) (velocity_msg s).

(** [trajectoryCallback] *)
Definition trajectoryCallback (q : geometry_msgs.Quaternion) (s : State) : State :=
  mkState (pose s)
          (vec4 (geometry_msgs.x q) (geometry_msgs.y q)
                (geometry_msgs.z q) (geometry_msgs.w q))
          (velocity s) (velocity_d s)
          (error s) (error_d s) (error_i s) (sigma1 s) (sigma2 s)
          (phi_p s) (phi_i s)
          (k_p s) (k_d s) (k_a s) (k_b s) (alpha1 s) (alpha2 s)
          (new_odometry s) (c s) (velocity_msg s).

(** [trajectoryVelocityCallback] *)
Definition trajectoryVelocityCallback (q : geometry_msgs.Quaternion) (s : State)
  : State :=
  mkState (pose s) (pose_d s) (velocity s)
          (vec4 (geometry_msgs.x q) (geometry_msgs.y q)
                (geometry_msgs.z q) (geometry_msgs.w q))
          (error s) (error_d s) (error_i s) (sigma1 s) (sigma2 s)
          (phi_p s) (phi_i s)
          (k_p s) (k_d s) (k_a s) (k_b s) (alpha1 s) (alpha2 s)
          (new_odometry s) (c s) (velocity_msg s).

(** [dynamicReconfigureCallback] *)
Definition dynamicReconfigureCallback
  (cfg_k_p cfg_k_d cfg_k_a cfg_k_b cfg_alpha_p cfg_alpha_d : Q) (s : State)
  : State :=
  mkState (pose s) (pose_d s) (velocity s) (velocity_d s)
          (error s) (error_d s) (error_i s) (sigma1 s) (sigma2 s)
          (phi_p s) (phi_i s)
          cfg_k_p cfg_k_d cfg_k_a cfg_k_b cfg_alpha_p cfg_alpha_d
          (new_odometry s) (c s) (velocity_msg s).

Definition deliver (s : State) (m : Message) : State :=
  match m with
  | OdometryMsg position twist => odometryCallback position twist s
  | TrajectoryMsg q => trajectoryCallback q s
  | TrajectoryVelocityMsg q => trajectoryVelocityCallback q s
  | ConfigMsg p d a b ap ad => dynamicReconfigureCallback p d a b ap ad s
  end.

(** [ros::spinOnce]: the pending messages go to their callbacks, in the
    order of arrival. *)
Definition spinOnce (pending : list Message) (s : State) : State :=
  fold_left deliver pending s.

(** ** The control loop, [DI_IT2_FLC_FM::run] *)

(** [double dt = (double)1/100] *)
Definition dt : Q := 1 / 100.

(** The guard of the command branch, [pose_d(2) > -10 && new_odometry]. *)
Definition commanding (s : State) : bool :=
  Cmp.gt (coeff (pose_d s) i2) (-10) && new_odometry s.

(** [new_odometry = false], the last statement of the loop body. *)
Definition clear_odometry (s : State) : State :=
  mkState (pose s) (pose_d s) (velocity s) (velocity_d s)
          (error s) (error_d s) (error_i s) (sigma1 s) (sigma2 s)
          (phi_p s) (phi_i s)
          (k_p s) (k_d s) (k_a s) (k_b s) (alpha1 s) (alpha2 s)
          false (c s) (velocity_msg s).

(** The command branch, up to and including [publish]; the second
    component is the published message. *)
Definition command (s : State) : State * geometry_msgs.Quaternion :=
  let pose' :=
    set_coeff (pose s) i3
              (denormalizeAngle (coeff (pose s) i3) (coeff (pose_d s) i3)) in
  let error' := vsub (pose_d s) pose' in
  let error_d' := vsub (velocity_d s) (velocity s) in
  let error_i' := vadd (error_i s) (vscale error' dt) in
  let sigma1' :=
    vec4 (bound (k_p s * coeff error' i0)) (bound (k_p s * coeff error' i1))
         (bound (k_p s * coeff error' i2)) (bound (k_p s * coeff error' i3)) in
  let sigma2' :=
    vec4 (bound (k_d s * coeff error_d' i0)) (bound (k_d s * coeff error_d' i1))
         (bound (k_d s * coeff error_d' i2)) (bound (k_d s * coeff error_d' i3)) in
  let phi_p' :=
    vec4 (phi (coeff sigma1' i0) (coeff sigma2' i0))
         (phi (coeff sigma1' i1) (coeff sigma2' i1))
         (phi (coeff sigma1' i2) (coeff sigma2' i2))
         (phi (coeff sigma1' i3) (coeff sigma2' i3)) in
  let phi_i' := vadd (phi_i s) (vscale phi_p' dt) in
  let velocity_msg' :=
    geometry_msgs.quaternion
      (k_a s * coeff phi_p' i0 + k_b s * coeff phi_i' i0
       + (1 - alpha1 s * alpha2 s) * coeff error_i' i0)
      (k_a s * coeff phi_p' i1 + k_b s * coeff phi_i' i1
       + (1 - alpha1 s * alpha2 s) * coeff error_i' i1)
      (k_a s * coeff phi_p' i2 + k_b s * coeff phi_i' i2
       + (1 - alpha1 s * alpha2 s) * coeff error_i' i2)
      (coeff phi_p' i3) in
  (mkState pose' (pose_d s) (velocity s) (velocity_d s)
           error' error_d' error_i' sigma1' sigma2' phi_p' phi_i'
           (k_p s) (k_d s) (k_a s) (k_b s) (alpha1 s) (alpha2 s)
           (new_odometry s) (c s + 1)%Z velocity_msg',
   velocity_msg').

(** One tick: the loop body after [rate.sleep] and [ros::spinOnce]. *)
Definition tick (s : State) : State * option geometry_msgs.Quaternion :=
  if commanding s then
    let '(s', msg) := command s in (clear_odometry s', Some msg)
  else (clear_odometry s, None).

(** One iteration of the loop: the messages that arrived during the period
    are delivered, then the tick is taken. *)
Definition iterate (pending : list Message) (s : State)
  : State * option geometry_msgs.Quaternion :=
  tick (spinOnce pending s).

Definition published (o : option geometry_msgs.Quaternion)
  : list geometry_msgs.Quaternion :=
  match o with Some msg => [msg] | None => [] end.

(** The loop, for as many iterations as [ros::ok] holds: one list of
    pending messages for each.  The result is the final state and the
    commands that were published, oldest first. *)
Fixpoint run (periods : list (list Message)) (s : State)
  : State * list geometry_msgs.Quaternion :=
  match periods with
  | [] => (s, [])
  | pending :: rest =>
      let '(s1, o) := iterate pending s in
      let '(s2, os) := run rest s1 in
      (s2, published o ++ os)
  end.

(** [P] holds of the state on which each tick of the run is taken. *)
Fixpoint each_tick (P : State -> bool) (periods : list (list Message))
  (s : State) : bool :=
  match periods with
  | [] => true
  | pending :: rest =>
      P (spinOnce pending s) && each_tick P rest (fst (iterate pending s))
  end.

(** The position error that a tick taken on [s] computes,
    [pose_d - pose] after the yaw of [pose] has been unwrapped. *)
Definition error_of (s : State) : Vector4d :=
  vsub (pose_d s)
       (set_coeff (pose s) i3
          (denormalizeAngle (coeff (pose s) i3) (coeff (pose_d s) i3))).

(** ** Start-up, the constructor [DI_IT2_FLC_FM::DI_IT2_FLC_FM]

    [argv] is the argument vector as [ros::init] leaves it and [argc] its
    length.  Reading [argv[i]] for [i >= argc] hands [atof] a null pointer
    or a pointer from past the array: the behaviour is undefined, and the
    constructor of the embedding has no result ([None]).  [atof] belongs to
    the C library and is a parameter here. *)

Section Startup.

Variable atof : string -> Q.

(** [atof(argv[i])] *)
Definition atof_arg (argv : list string) (i : nat) : option Q :=
  option_map atof (nth_error argv i).

(** The state that the constructor leaves, for the six gains that its
    branch has chosen; [run] then starts with [c = 0] and an empty
    message. *)
Definition fresh_state (kp kd ka kb a1 a2 : Q) : State :=
  mkState vzero vzero vzero vzero vzero vzero vzero vzero vzero vzero vzero
          kp kd ka kb a1 a2
          false 0%Z (geometry_msgs.quaternion 0 0 0 0).

Definition DI_IT2_FLC_FM (argv : list string) : option State :=
  if (1 <? length argv)%nat then
    match atof_arg argv 1, atof_arg argv 2, atof_arg argv 3,
          atof_arg argv 4, atof_arg argv 5, atof_arg argv 6 with
    | Some kp, Some kd, Some ka, Some kb, Some a1, Some a2 =>
        Some (fresh_state kp kd ka kb a1 a2)
    | _, _, _, _, _, _ => None
    end
  else
    Some (fresh_state 1.0 0.004 0.077 7.336 0.5 0.5).

End Startup.

(** The state after a start without arguments. *)
Definition default_state : State :=
  fresh_state 1.0 0.004 0.077 7.336 0.5 0.5.

(** A reading of [atof] on plain decimal numerals (an optional sign, digits,
    an optional point and more digits; the number ends at the first other
    character, and a string that starts with none of these reads as 0).
    It agrees with the C library on such numerals only: leading white
    space, exponents, hexadecimal numerals, [inf] and [nan] are not read.
    It stands in for the C library where an argument vector of plain
    numerals is run through the constructor. *)
Module Decimal.

Definition digit (a : ascii) : option Z :=
  let n := nat_of_ascii a in
  if ((48 <=? n) && (n <=? 57))%nat then Some (Z.of_nat (n - 48)) else None.

Fixpoint int_part (s : string) (acc : Z) : Z * string :=
  match s with
  | String a r =>
      match digit a with
      | Some d => int_part r (10 * acc + d)%Z
      | None => (acc, s)
      end
  | EmptyString => (acc, s)
  end.

Fixpoint frac_part (s : string) (num : Z) (den : positive) : Q :=
  match s with
  | String a r =>
      match digit a with
      | Some d => frac_part r (10 * num + d)%Z (10 * den)%positive
      | None => num # den
      end
  | EmptyString => num # den
  end.

Definition unsigned (s : string) : Q :=
  let '(ip, r) := int_part s 0%Z in
  match r with
  | String "."%char f => inject_Z ip + frac_part f 0%Z 1%positive
  | _ => inject_Z ip
  end.

Definition atof (s : string) : Q :=
  match s with
  | String "-"%char r => - unsigned r
  | String "+"%char r => unsigned r
  | _ => unsigned s
  end.

End Decimal.

(** ** Predicates on runs, and sample inputs *)

(** The tick taken on [s] is a command tick whose position error on axis
    [i] is [e]. *)
Definition constant_error (i : Index) (e : Q) (s : State) : bool :=
  commanding s && Qeq_bool (coeff (error_of s) i) e.

(** The sentinel of the trajectory: [pose_d(2) <= -10]. *)
Definition awaiting_trajectory (s : State) : bool :=
  Cmp.le (coeff (pose_d s) i2) (-10).

Definition is_odometry (m : Message) : bool :=
  match m with OdometryMsg _ _ => true | _ => false end.

(** A first tick after start-up: the trajectory asks for (1, 2, 3) and the
    odometry reports the origin. *)
Definition first_sample : State :=
  spinOnce [TrajectoryMsg (geometry_msgs.quaternion 1 2 3 0);
            OdometryMsg vzero vzero] default_state.

(** The gains of scenario B, a trajectory that asks for x = 1, and the
    vehicle at the origin. *)
Definition scenario_B : State :=
  spinOnce [ConfigMsg 1 0 1 0 0.5 0.5;
            TrajectoryMsg (geometry_msgs.quaternion 1 0 0 0);
            OdometryMsg vzero vzero] default_state.

(** Three periods with the vehicle held at the origin and the trajectory
    at (1, 2, 3). *)
Definition hover_periods : list (list Message) :=
  [ [TrajectoryMsg (geometry_msgs.quaternion 1 2 3 0); OdometryMsg vzero vzero];
    [OdometryMsg vzero vzero];
    [OdometryMsg vzero vzero] ].

(** Two periods in which odometry arrives while the trajectory still holds
    a sentinel, one period after its release without odometry, and the
    period with the first fresh sample. *)
Definition sentinel_periods : list (list Message) :=
  [ [TrajectoryMsg (geometry_msgs.quaternion 0 0 (-10) 0);
     OdometryMsg (vec4 1 1 1 0) vzero];
    [OdometryMsg (vec4 2 2 2 0) vzero] ].

Definition released_periods : list (list Message) :=
  [ [TrajectoryMsg (geometry_msgs.quaternion 1 2 3 0)] ].

Definition fresh_period : list Message :=
  [OdometryMsg (vec4 2 2 2 0) vzero].

(** The argument vector that spells out the built-in gains. *)
Definition full_argv : list string :=
  ["controller"; "1.0"; "0.004"; "0.077"; "7.336"; "0.5"; "0.5"]%string.

(** An argument vector with six gains that differ from one another and from
    the built-in ones. *)
Definition tuned_argv : list string :=
  ["controller"; "2"; "0.5"; "3"; "4"; "0.25"; "0.75"]%string.


(** ** The program, [main], and a few more predicates *)

(** [main]: the controller is constructed from the arguments and then run.
    The periods are those of [run]. *)
Definition main (atof : string -> Q) (argv : list string)
  (periods : list (list Message))
  : option (State * list geometry_msgs.Quaternion) :=
  option_map (run periods) (DI_IT2_FLC_FM atof argv).

Definition is_trajectory (m : Message) : bool :=
  match m with TrajectoryMsg _ => true | _ => false end.

(** Two messages go to the same callback. *)
Definition same_callback (m1 m2 : Message) : bool :=
  match m1, m2 with
  | OdometryMsg _ _, OdometryMsg _ _ => true
  | TrajectoryMsg _, TrajectoryMsg _ => true
  | TrajectoryVelocityMsg _, TrajectoryVelocityMsg _ => true
  | ConfigMsg _ _ _ _ _ _, ConfigMsg _ _ _ _ _ _ => true
  | _, _ => false
  end.

(** The periods in which odometry arrives. *)
Definition odometry_periods (periods : list (list Message)) : nat :=
  length (filter (existsb is_odometry) periods).

(** The largest finite [double], [DBL_MAX]. *)
Definition DBL_MAX : Q := inject_Z (2 ^ 1024 - 2 ^ 971).

(** The two differences that a command tick on [s] takes, [pose_d - pose]
    and [velocity_d - velocity], stay within the range of [double] on
    every axis.  Beyond it the program's difference is an infinity, and the
    rational that the embedding computes is no longer its value. *)
Definition finite_errors (s : State) : bool :=
  forallb
    (fun i =>
       Cmp.le (Qabs (coeff (error_of s) i)) DBL_MAX
       && Cmp.le (Qabs (coeff (vsub (velocity_d s) (velocity s)) i)) DBL_MAX)
    [i0; i1; i2; i3].

(** If the tick on [s] is a command tick, its differences are finite. *)
Definition command_in_range (s : State) : bool :=
  implb (commanding s) (finite_errors s).

(** * Properties *)

(** ** Comparisons and absolute values *)

Module CmpFacts.

Lemma le_spec a b : reflect (a <= b) (Cmp.le a b).
Proof.
  unfold Cmp.le. destruct (Qle_bool a b) eqn:E; constructor.
  - now apply Qle_bool_iff.
  - intro H. apply Qle_bool_iff in H. congruence.
Qed.

Lemma ge_spec a b : reflect (b <= a) (Cmp.ge a b).
Proof. exact (le_spec b a). Qed.

Lemma gt_spec a b : reflect (b < a) (Cmp.gt a b).
Proof.
  unfold Cmp.gt. change (Qle_bool a b) with (Cmp.le a b).
  destruct (le_spec a b) as [H|H]; constructor.
  - now apply Qle_not_lt.
  - now apply Qnot_le_lt.
Qed.

Lemma lt_spec a b : reflect (a < b) (Cmp.lt a b).
Proof. exact (gt_spec b a). Qed.

Lemma gt_negb_le a b : Cmp.gt a b = negb (Cmp.le a b).
Proof. reflexivity. Qed.

End CmpFacts.

(** Case analysis on every comparison of the goal. *)
Ltac cmp_cases :=
  repeat match goal with
    | |- context [Cmp.le ?a ?b] => destruct (CmpFacts.le_spec a b)
    | |- context [Cmp.ge ?a ?b] => destruct (CmpFacts.ge_spec a b)
    | |- context [Cmp.gt ?a ?b] => destruct (CmpFacts.gt_spec a b)
    | |- context [Cmp.lt ?a ?b] => destruct (CmpFacts.lt_spec a b)
    end.

(** [|q|] is [q] or [- q], according to the sign of [q]. *)
Lemma Qabs_cases (q : Q) :
  (0 <= q /\ Qabs q == q) \/ (q <= 0 /\ Qabs q == - q).
Proof.
  destruct (Qlt_le_dec q 0) as [H|H].
  - right. split; [now apply Qlt_le_weak|].
    apply Qabs_neg. now apply Qlt_le_weak.
  - left. split; [assumption|]. now apply Qabs_pos.
Qed.

Ltac abs_cases q :=
  let H1 := fresh "Hsgn" in
  let H2 := fresh "Habs" in
  destruct (Qabs_cases q) as [[H1 H2]|[H1 H2]].

(** ** The surface [phi] *)

Lemma M_PI_pos : 0 < M_PI.
Proof. reflexivity. Qed.

(** [bound] lands in the unit interval and leaves it pointwise fixed. *)
Lemma bound_range (n : Q) : -1 <= bound n <= 1.
Proof. unfold bound. cmp_cases; lra. Qed.

Lemma bound_id (n : Q) : -1 <= n <= 1 -> bound n == n.
Proof. intros H. unfold bound. cmp_cases; lra. Qed.

(** [phi] without the division. *)
Lemma phi_half (s1 s2 : Q) :
  phi s1 s2 == s1 + s2 - (1#2) * (Qabs s1 * s2 + s1 * Qabs s2).
Proof. unfold phi. field. Qed.

Lemma phi_sym (s1 s2 : Q) : phi s1 s2 == phi s2 s1.
Proof. rewrite !phi_half. ring. Qed.

(** In its first argument [phi] moves no faster than that argument, as long
    as the second one is in the unit interval. *)
Lemma phi_lipschitz_l (a b t : Q) :
  -1 <= t <= 1 -> Qabs (phi a t - phi b t) <= Qabs (a - b).
Proof.
  intros Ht. rewrite !phi_half.
  abs_cases a; abs_cases b; abs_cases t;
    rewrite ?Habs, ?Habs0, ?Habs1;
    apply Qabs_case; intros; apply Qabs_case; intros; nra.
Qed.

(** On the unit square [phi] is 1-Lipschitz for the sum norm. *)
Lemma phi_lipschitz (s1 s2 t1 t2 : Q) :
  -1 <= s2 <= 1 -> -1 <= t1 <= 1 ->
  Qabs (phi s1 s2 - phi t1 t2) <= Qabs (s1 - t1) + Qabs (s2 - t2).
Proof.
  intros H2 H1.
  assert (E : phi s1 s2 - phi t1 t2
              == (phi s1 s2 - phi t1 s2) + (phi s2 t1 - phi t2 t1)).
  { rewrite (phi_sym t1 s2), (phi_sym t1 t2). ring. }
  rewrite E.
  eapply Qle_trans; [apply Qabs_triangle|].
  apply Qplus_le_compat; now apply phi_lipschitz_l.
Qed.

(** On the unit square [phi] stays in the unit interval. *)
Lemma phi_unit (s1 s2 : Q) :
  -1 <= s1 <= 1 -> -1 <= s2 <= 1 -> -1 <= phi s1 s2 <= 1.
Proof.
  intros H1 H2. rewrite phi_half.
  abs_cases s1; abs_cases s2; rewrite Habs, Habs0; split; nra.
Qed.

(** C7.  The surface [phi] is symmetric under the exchange of its two
    arguments, and takes the values 0 at (0,0), 1 at (1,1) and -1 at
    (-1,-1). *)
Theorem phi_symmetric_anchors :
  (forall s1 s2 : Q, phi s1 s2 == phi s2 s1)
  /\ phi 0 0 == 0 /\ phi 1 1 == 1 /\ phi (-1) (-1) == -1.
Proof.
  split; [exact phi_sym|]. repeat split; reflexivity.
Qed.

(** C8.  On the square [-1,1] x [-1,1] the surface [phi] lies in [-2,2],
    and it is continuous there: at every point of the square, every
    tolerance [eps > 0] has a [delta > 0] such that the points of the
    square within [delta] in both coordinates have their value within
    [eps]. *)
Theorem phi_bounded_continuous (s1 s2 : Q) :
  -1 <= s1 <= 1 -> -1 <= s2 <= 1 ->
  -2 <= phi s1 s2 <= 2
  /\ forall eps : Q, 0 < eps ->
     exists delta : Q, 0 < delta /\
       forall t1 t2 : Q, -1 <= t1 <= 1 -> -1 <= t2 <= 1 ->
         Qabs (s1 - t1) < delta -> Qabs (s2 - t2) < delta ->
         Qabs (phi s1 s2 - phi t1 t2) < eps.
Proof.
  intros H1 H2. split.
  - pose proof (phi_unit s1 s2 H1 H2). lra.
  - intros eps He. exists (eps * (1#2)). split; [lra|].
    intros t1 t2 Ht1 Ht2 D1 D2.
    eapply Qle_lt_trans; [apply (phi_lipschitz s1 s2 t1 t2 H2 Ht1)|]. lra.
Qed.

Lemma phi_bounded_continuous_witness :
  (-1 <= 1#2 <= 1) /\ (-1 <= -1#2 <= 1) /\ -2 <= phi (1#2) (-1#2) <= 2.
Proof.
  assert (A : -1 <= 1#2 <= 1) by (split; discriminate).
  assert (B : -1 <= -1#2 <= 1) by (split; discriminate).
  exact (conj A (conj B (proj1 (phi_bounded_continuous (1#2) (-1#2) A B)))).
Defined.

(** ** Angle unwrapping *)

(** The one shift of [denormalizeAngle] does not bring every angle within
    [M_PI] of the reference: from 0 towards 100 it stops at [2 * M_PI]. *)
Lemma denormalizeAngle_far :
  ~ (forall a reference : Q,
       Qabs (denormalizeAngle a reference - reference) <= M_PI).
Proof.
  intros H. specialize (H 0 100). vm_compute in H. now apply H.
Qed.

(** C6, amended.  When the angle is more than [M_PI] away from the
    reference, [denormalizeAngle] shifts it by [2 * M_PI], once, towards the
    reference, and the difference shrinks; otherwise the angle comes back
    unchanged.  The result is within [M_PI] of the reference for the angles
    that start within [3 * M_PI] of it. *)
Theorem denormalizeAngle_nearest (a reference : Q) :
  (M_PI < Qabs (reference - a) ->
     (reference < a -> denormalizeAngle a reference = a - 2 * M_PI)
     /\ (a <= reference -> denormalizeAngle a reference = a + 2 * M_PI)
     /\ Qabs (denormalizeAngle a reference - reference)
        < Qabs (a - reference))
  /\ (Qabs (reference - a) <= M_PI -> denormalizeAngle a reference = a)
  /\ (Qabs (reference - a) <= 3 * M_PI ->
        Qabs (denormalizeAngle a reference - reference) <= M_PI).
Proof.
  pose proof M_PI_pos as Hpi.
  unfold denormalizeAngle. split; [|split].
  - intros Hfar. repeat split.
    + cmp_cases; intros; try reflexivity; lra.
    + cmp_cases; intros; try reflexivity; lra.
    + cmp_cases; try lra; abs_cases (reference - a); rewrite ?Habs in *;
        apply Qabs_case; intros; apply Qabs_case; intros; lra.
  - intros Hnear. cmp_cases; try reflexivity; lra.
  - intros Hnear. cmp_cases; revert Hnear; abs_cases (reference - a);
      rewrite ?Habs in *; intros; apply Qabs_case; intros; lra.
Qed.

(** Scenario C of the specification: a yaw of 3 against a desired yaw
    of -3. *)
Lemma denormalizeAngle_nearest_witness :
  (M_PI < Qabs (-3 - 3) /\ denormalizeAngle 3 (-3) = 3 - 2 * M_PI)
  /\ (Qabs (1 - 0) <= M_PI /\ denormalizeAngle 0 1 = 0)
  /\ (Qabs (-3 - 3) <= 3 * M_PI
      /\ Qabs (denormalizeAngle 3 (-3) - -3) <= M_PI).
Proof.
  assert (A : M_PI < Qabs (-3 - 3)) by reflexivity.
  assert (B : Qabs (1 - 0) <= M_PI) by (vm_compute; discriminate).
  assert (C : Qabs (-3 - 3) <= 3 * M_PI) by (vm_compute; discriminate).
  assert (D : -3 < 3) by reflexivity.
  split; [|split].
  - exact (conj A (proj1 (proj1 (denormalizeAngle_nearest 3 (-3)) A) D)).
  - exact (conj B (proj1 (proj2 (denormalizeAngle_nearest 0 1)) B)).
  - exact (conj C (proj2 (proj2 (denormalizeAngle_nearest 3 (-3))) C)).
Defined.

(** ** Singularities of the three-region compositor *)

Lemma div_None (n d : Q) : Compositor.div n d = None <-> d == 0.
Proof.
  unfold Compositor.div. destruct (Qeq_bool d 0) eqn:E.
  - split; [intros _; now apply Qeq_bool_iff | reflexivity].
  - split; [discriminate|]. intros H. apply Qeq_bool_iff in H. congruence.
Qed.

Lemma lift2_None (f : Q -> Q -> Q) (a b : option Q) :
  Compositor.lift2 f a b = None <-> a = None \/ b = None.
Proof.
  destruct a, b; cbn; split; intros H; try discriminate; auto;
    destruct H; discriminate.
Qed.

(** [phi1] has a finite value exactly where both of its divisors are not
    zero. *)
Lemma phi1_None (a1 a2 s1 s2 : Q) :
  Compositor.phi1 a1 a2 s1 s2 = None
  <-> Compositor.phi1_den1 a1 a2 s1 s2 == 0
      \/ Compositor.phi1_den2 a1 a2 s1 s2 == 0.
Proof.
  unfold Compositor.phi1, Compositor.add.
  now rewrite lift2_None, !div_None.
Qed.

(** C9.  Inside the ranges [sigma1, sigma2 in [-1,1]] and
    [alpha1, alpha2 in [0,1]] there are inputs at which a divisor of the
    three-region compositor is exactly zero, so that the unguarded division
    is taken and the function has no finite value: for [phi1], [phi2] and
    [phi3] already at the start-up values [alpha1 = alpha2 = 0.5], for
    [omega12] and [omega23] at [alpha1 = 0]. *)
Theorem compositor_singular :
  let unit (q : Q) := -1 <= q <= 1 in
  let width (q : Q) := 0 <= q <= 1 in
  (exists a1 a2 s1 s2, width a1 /\ width a2 /\ unit s1 /\ unit s2
     /\ Compositor.phi1_den2 a1 a2 s1 s2 == 0
     /\ Compositor.phi1 a1 a2 s1 s2 = None)
  /\ (exists a1 a2 s1 s2, width a1 /\ width a2 /\ unit s1 /\ unit s2
     /\ Compositor.phi2_den1 a1 a2 s1 s2 == 0
     /\ Compositor.phi2 a1 a2 s1 s2 = None)
  /\ (exists a1 a2 s1 s2, width a1 /\ width a2 /\ unit s1 /\ unit s2
     /\ Compositor.phi3_den2 a1 a2 s1 s2 == 0
     /\ Compositor.phi3 a1 a2 s1 s2 = None)
  /\ (exists a1 a2 s1, width a1 /\ width a2 /\ unit s1 /\ s1 <= 0
     /\ s1 - a1 * a2 * s1 + 1 == 0
     /\ Compositor.omega12 a1 a2 s1 = None)
  /\ (exists a1 a2 s1, width a1 /\ width a2 /\ unit s1 /\ 0 < s1
     /\ a1 * a2 * s1 - s1 + 1 == 0
     /\ Compositor.omega23 a1 a2 s1 = None).
Proof.
  cbv zeta. repeat split.
  - exists 0.5, 0.5, (1#3), 0. repeat split; first [reflexivity | discriminate].
  - exists 0.5, 0.5, (-1#3), 0. repeat split; first [reflexivity | discriminate].
  - exists 0.5, 0.5, (-1#3), 0. repeat split; first [reflexivity | discriminate].
  - exists 0, 0.5, (-1). repeat split; first [reflexivity | discriminate].
  - exists 0, 0.5, 1. repeat split; first [reflexivity | discriminate].
Qed.

(** ** One tick *)

Lemma tick_commanding (s : State) :
  commanding s = true ->
  tick s = (clear_odometry (fst (command s)), Some (snd (command s))).
Proof. intros H. unfold tick. now rewrite H. Qed.

Lemma tick_skipped (s : State) :
  commanding s = false -> tick s = (clear_odometry s, None).
Proof. intros H. unfold tick. now rewrite H. Qed.

Lemma sentinel_not_commanding (s : State) :
  Cmp.le (coeff (pose_d s) i2) (-10) = true -> commanding s = false.
Proof.
  intros H. unfold commanding. now rewrite CmpFacts.gt_negb_le, H.
Qed.

Lemma stale_not_commanding (s : State) :
  new_odometry s = false -> commanding s = false.
Proof. intros H. unfold commanding. rewrite H. apply andb_false_r. Qed.

(** The integrals after a tick of the command branch. *)
Lemma tick_error_i (s : State) :
  commanding s = true ->
  error_i (fst (tick s)) = vadd (error_i s) (vscale (error_of s) dt).
Proof. intros H. now rewrite tick_commanding. Qed.

Lemma tick_phi_i (s : State) :
  commanding s = true ->
  phi_i (fst (tick s))
  = vadd (phi_i s) (vscale (phi_p (fst (tick s))) dt).
Proof. intros H. now rewrite tick_commanding. Qed.

(** C1.  On a tick of the command branch (the z of the desired pose above
    -10 and a fresh odometry sample) one command is published.  With
    [phi_p], [phi_i] and [error_i] as the tick has just updated them, its
    x, y and z are
    [k_a * phi_p(i) + k_b * phi_i(i) + (1 - alpha1 * alpha2) * error_i(i)]
    and its w is [phi_p(3)] and nothing else.  Here [phi_p(i)] is [phi] of
    the bounded [k_p * error(i)] and [k_d * error_d(i)], and each integral
    has grown by [dt] times its integrand. *)
Theorem command_composition (s : State) :
  commanding s = true ->
  exists msg : geometry_msgs.Quaternion,
    snd (tick s) = Some msg
    /\ let s' := fst (tick s) in
       let axis i :=
         k_a s * coeff (phi_p s') i + k_b s * coeff (phi_i s') i
         + (1 - alpha1 s * alpha2 s) * coeff (error_i s') i in
       geometry_msgs.x msg = axis i0
       /\ geometry_msgs.y msg = axis i1
       /\ geometry_msgs.z msg = axis i2
       /\ geometry_msgs.w msg = coeff (phi_p s') i3
       /\ (forall i,
             coeff (phi_p s') i
             = phi (bound (k_p s * coeff (error_of s) i))
                   (bound (k_d s * coeff (vsub (velocity_d s) (velocity s)) i)))
       /\ phi_i s' = vadd (phi_i s) (vscale (phi_p s') dt)
       /\ error_i s' = vadd (error_i s) (vscale (error_of s) dt).
Proof.
  intros H. exists (snd (command s)). rewrite tick_commanding by assumption.
  cbn zeta. repeat split. intros i. now destruct i.
Qed.

Lemma command_composition_witness :
  commanding first_sample = true
  /\ exists msg, snd (tick first_sample) = Some msg
       /\ geometry_msgs.w msg = coeff (phi_p (fst (tick first_sample))) i3.
Proof.
  split; [reflexivity|].
  destruct (command_composition first_sample eq_refl)
    as [msg [E [_ [_ [_ [W _]]]]]].
  exists msg. exact (conj E W).
Defined.

(** ** Runs of the loop *)

Lemma deliver_keeps (m : Message) (s : State) :
  error_i (deliver s m) = error_i s /\ phi_i (deliver s m) = phi_i s
  /\ c (deliver s m) = c s /\ velocity_msg (deliver s m) = velocity_msg s.
Proof. destruct m; repeat split. Qed.

(** The callbacks touch neither the integrals nor the locals of [run]. *)
Lemma spinOnce_keeps (pending : list Message) (s : State) :
  error_i (spinOnce pending s) = error_i s
  /\ phi_i (spinOnce pending s) = phi_i s
  /\ c (spinOnce pending s) = c s
  /\ velocity_msg (spinOnce pending s) = velocity_msg s.
Proof.
  revert s. induction pending as [|m pending IH]; intros s.
  - repeat split.
  - cbn. destruct (IH (deliver s m)) as (A & B & C & D).
    destruct (deliver_keeps m s) as (A' & B' & C' & D').
    unfold spinOnce in *. repeat split; congruence.
Qed.

(** Only odometry raises the freshness flag. *)
Lemma spinOnce_no_odometry (pending : list Message) (s : State) :
  forallb (fun m => negb (is_odometry m)) pending = true ->
  new_odometry (spinOnce pending s) = new_odometry s.
Proof.
  revert s. induction pending as [|m pending IH]; intros s H; [reflexivity|].
  cbn in H. apply andb_prop in H as [Hm H].
  change (spinOnce (m :: pending) s) with (spinOnce pending (deliver s m)).
  rewrite (IH _ H). now destruct m.
Qed.

Lemma run_cons (pending : list Message) (rest : list (list Message))
  (s : State) :
  run (pending :: rest) s
  = (fst (run rest (fst (iterate pending s))),
     published (snd (iterate pending s))
     ++ snd (run rest (fst (iterate pending s)))).
Proof.
  cbn. destruct (iterate pending s) as [s1 o].
  cbn. now destruct (run rest s1).
Qed.

Lemma run_app (before after : list (list Message)) (s : State) :
  run (before ++ after) s
  = (fst (run after (fst (run before s))),
     snd (run before s) ++ snd (run after (fst (run before s)))).
Proof.
  revert s. induction before as [|p before IH]; intros s.
  - cbn. now destruct (run after s).
  - rewrite <- app_comm_cons, !run_cons, IH. cbn. now rewrite app_assoc.
Qed.

Lemma each_tick_weaken (P R : State -> bool) :
  (forall s, P s = true -> R s = true) ->
  forall periods s,
    each_tick P periods s = true -> each_tick R periods s = true.
Proof.
  intros PR periods. induction periods as [|p periods IH]; intros s H.
  - reflexivity.
  - cbn in *. apply andb_prop in H as [H1 H2].
    now rewrite (PR _ H1), (IH _ H2).
Qed.

(** A stretch of skipped ticks publishes nothing and computes nothing. *)
Lemma run_skipped (periods : list (list Message)) (s : State) :
  each_tick (fun st => negb (commanding st)) periods s = true ->
  snd (run periods s) = []
  /\ error_i (fst (run periods s)) = error_i s
  /\ phi_i (fst (run periods s)) = phi_i s
  /\ c (fst (run periods s)) = c s
  /\ velocity_msg (fst (run periods s)) = velocity_msg s.
Proof.
  revert s. induction periods as [|p periods IH]; intros s H.
  - repeat split.
  - cbn in H. apply andb_prop in H as [H1 H2].
    apply negb_true_iff in H1. rewrite run_cons. cbn [fst snd].
    destruct (IH _ H2) as (A & B & C & D & E).
    destruct (spinOnce_keeps p s) as (B' & C' & D' & E').
    unfold iterate in *. rewrite tick_skipped in * by assumption.
    cbn [fst snd published app] in *.
    change (error_i (clear_odometry ?t)) with (error_i t) in B.
    change (phi_i (clear_odometry ?t)) with (phi_i t) in C.
    change (c (clear_odometry ?t)) with (c t) in D.
    change (velocity_msg (clear_odometry ?t)) with (velocity_msg t) in E.
    repeat split; try assumption; congruence.
Qed.

(** C4.  A tick taken without a fresh odometry sample publishes nothing and
    leaves the whole state as it was, both integrals included; after every
    tick, skipped or not, the freshness flag is down; and so a period in
    which no odometry arrives ends in such a skipped tick. *)
Theorem stale_tick_frame :
  (forall s : State, new_odometry s = false -> tick s = (s, None))
  /\ (forall s : State, new_odometry (fst (tick s)) = false)
  /\ (forall (s : State) (pending : list Message),
        forallb (fun m => negb (is_odometry m)) pending = true ->
        iterate pending (fst (tick s))
        = (spinOnce pending (fst (tick s)), None)).
Proof.
  assert (A : forall s, new_odometry s = false -> tick s = (s, None)).
  { intros s H. rewrite tick_skipped by now apply stale_not_commanding.
    f_equal. destruct s. cbn in H. now subst. }
  assert (B : forall s, new_odometry (fst (tick s)) = false).
  { intros s. unfold tick. now destruct (commanding s). }
  repeat split; try assumption.
  intros s pending H. unfold iterate. apply A.
  now rewrite spinOnce_no_odometry.
Qed.

Lemma stale_tick_frame_witness :
  new_odometry default_state = false
  /\ tick default_state = (default_state, None)
  /\ iterate (concat released_periods) (fst (tick first_sample))
     = (spinOnce (concat released_periods) (fst (tick first_sample)), None).
Proof.
  destruct stale_tick_frame as (A & _ & C).
  exact (conj eq_refl
           (conj (A default_state eq_refl)
                 (C first_sample (concat released_periods) eq_refl))).
Defined.

(** C2.  While the z of the desired pose holds the sentinel (at most -10),
    whatever the callbacks deliver, no tick publishes a command, and the
    integrals, the command counter and the command message stay as they
    were.  The first tick afterwards that finds a z above -10 together with
    a fresh odometry sample publishes one command, the only one of the run
    up to there. *)
Theorem trajectory_gating (waiting : list (list Message)) (s : State) :
  each_tick awaiting_trajectory waiting s = true ->
  let s1 := fst (run waiting s) in
  snd (run waiting s) = []
  /\ error_i s1 = error_i s /\ phi_i s1 = phi_i s
  /\ c s1 = c s /\ velocity_msg s1 = velocity_msg s
  /\ forall (stale : list (list Message)) (pending : list Message),
       each_tick (fun st => negb (commanding st)) stale s1 = true ->
       commanding (spinOnce pending (fst (run stale s1))) = true ->
       exists msg : geometry_msgs.Quaternion,
         snd (iterate pending (fst (run stale s1))) = Some msg
         /\ snd (run (waiting ++ stale ++ [pending]) s) = [msg].
Proof.
  intros W s1.
  assert (W' : each_tick (fun st => negb (commanding st)) waiting s = true).
  { revert W. apply each_tick_weaken. intros st H.
    unfold awaiting_trajectory in H.
    now rewrite (sentinel_not_commanding st H). }
  destruct (run_skipped waiting s W') as (A & B & C & D & E).
  repeat split; try assumption.
  intros stale pending St Cmd.
  destruct (run_skipped stale s1 St) as (A' & _).
  exists (snd (command (spinOnce pending (fst (run stale s1))))).
  unfold iterate. rewrite tick_commanding by assumption. split; [reflexivity|].
  rewrite !run_app, A. fold s1. rewrite A'.
  rewrite run_cons. unfold iterate. now rewrite tick_commanding by assumption.
Qed.

Lemma trajectory_gating_witness :
  each_tick awaiting_trajectory sentinel_periods default_state = true
  /\ snd (run sentinel_periods default_state) = []
  /\ exists msg,
       snd (run (sentinel_periods ++ released_periods ++ [fresh_period])
                default_state) = [msg].
Proof.
  destruct (trajectory_gating sentinel_periods default_state eq_refl)
    as (A & _ & _ & _ & _ & N).
  destruct (N released_periods fresh_period eq_refl eq_refl) as (msg & _ & M).
  exact (conj eq_refl (conj A (ex_intro _ msg M))).
Defined.

(** ** Integral accumulation *)

Lemma dt_value : dt == 1 # 100.
Proof. reflexivity. Qed.

(** Over command ticks with the position error [e] on axis [i], the
    position-error integral of that axis grows by [e * dt] a tick. *)
Lemma error_i_accumulates (i : Index) (e : Q) (periods : list (list Message)) :
  forall s : State,
    each_tick (constant_error i e) periods s = true ->
    coeff (error_i (fst (run periods s))) i
    == coeff (error_i s) i + inject_Z (Z.of_nat (length periods)) * e * dt.
Proof.
  induction periods as [|p periods IH]; intros s H.
  - cbn. ring.
  - cbn [each_tick] in H. apply andb_prop in H as [H1 H2].
    unfold constant_error in H1. apply andb_prop in H1 as [Hc He].
    apply Qeq_bool_iff in He.
    rewrite run_cons. cbn [fst]. rewrite (IH _ H2).
    unfold iterate. rewrite (tick_error_i _ Hc).
    destruct (spinOnce_keeps p s) as (Hi & _). rewrite Hi.
    assert (Hstep : coeff (vadd (error_i s) (vscale (error_of (spinOnce p s)) dt)) i
                    == coeff (error_i s) i + e * dt).
    { rewrite <- He. destruct i; reflexivity. }
    rewrite Hstep.
    cbn [length]. rewrite Nat2Z.inj_succ, <- Z.add_1_r, inject_Z_plus.
    change (inject_Z 1) with 1. ring.
Qed.

(** C3.  From a zero position-error integral on an axis, [N] consecutive
    command ticks on which the position error of that axis is the constant
    [e] leave the integral of that axis at [N * e * dt], exactly. *)
Theorem error_integral_linear (i : Index) (e : Q)
  (periods : list (list Message)) (s : State) :
  coeff (error_i s) i == 0 ->
  each_tick (constant_error i e) periods s = true ->
  coeff (error_i (fst (run periods s))) i
  == inject_Z (Z.of_nat (length periods)) * e * dt.
Proof.
  intros Z0 H. rewrite (error_i_accumulates i e periods s H), Z0. ring.
Qed.

Lemma error_integral_linear_witness :
  coeff (error_i default_state) i0 == 0
  /\ each_tick (constant_error i0 1) hover_periods default_state = true
  /\ coeff (error_i (fst (run hover_periods default_state))) i0
     == inject_Z (Z.of_nat (length hover_periods)) * 1 * dt.
Proof.
  assert (A : coeff (error_i default_state) i0 == 0) by reflexivity.
  assert (B : each_tick (constant_error i0 1) hover_periods default_state
              = true) by reflexivity.
  exact (conj A (conj B
           (error_integral_linear i0 1 hover_periods default_state A B))).
Defined.

(** ** Scenario B *)

(** With the gains of scenario B the first command carries the position
    error: at an error of 1 on x its x is 1.0075, not the 1 of [phi_p]. *)
Lemma scenario_B_integral_term :
  ~ (forall s : State,
       alpha1 s == 0.5 -> alpha2 s == 0.5 -> k_a s == 1 -> k_b s == 0 ->
       error_i s = vzero -> phi_i s = vzero -> commanding s = true ->
       forall msg, snd (tick s) = Some msg ->
         geometry_msgs.x msg == coeff (phi_p (fst (tick s))) i0).
Proof.
  intros H.
  assert (E := H scenario_B (Qeq_refl _) (Qeq_refl _) (Qeq_refl _) (Qeq_refl _)
                 eq_refl eq_refl eq_refl (snd (command scenario_B)) eq_refl).
  vm_compute in E. discriminate E.
Qed.

(** C5, amended.  With [alpha1 = alpha2 = 0.5], [k_a = 1] and [k_b = 0],
    the x of the command of a single command tick from zero integrals is
    [phi_p(0) + 0.75 * error(0) * dt]: the tick adds [error * dt] to the
    position-error integral before it composes the command.  The x equals
    [phi_p(0)] exactly when the position error on x is zero. *)
Theorem scenario_B_command (s : State) :
  alpha1 s == 0.5 -> alpha2 s == 0.5 -> k_a s == 1 -> k_b s == 0 ->
  coeff (error_i s) i0 == 0 -> coeff (phi_i s) i0 == 0 ->
  commanding s = true ->
  exists msg : geometry_msgs.Quaternion,
    snd (tick s) = Some msg
    /\ geometry_msgs.x msg
       == coeff (phi_p (fst (tick s))) i0 + 0.75 * coeff (error_of s) i0 * dt
    /\ (geometry_msgs.x msg == coeff (phi_p (fst (tick s))) i0
        <-> coeff (error_of s) i0 == 0).
Proof.
  intros A1 A2 Ka Kb Ei Pi Hc.
  destruct (command_composition s Hc) as (msg & E & X & _ & _ & _ & _ & PI & EI).
  exists msg. split; [assumption|].
  cbv zeta in X. rewrite PI, EI in X.
  set (P := coeff (phi_p (fst (tick s))) i0) in *.
  assert (HX : geometry_msgs.x msg == P + 0.75 * coeff (error_of s) i0 * dt).
  { rewrite X.
    change (coeff (vadd (phi_i s) (vscale (phi_p (fst (tick s))) dt)) i0)
      with (coeff (phi_i s) i0 + P * dt).
    change (coeff (vadd (error_i s) (vscale (error_of s) dt)) i0)
      with (coeff (error_i s) i0 + coeff (error_of s) i0 * dt).
    rewrite A1, A2, Ka, Kb, Ei, Pi. unfold dt. field. }
  split; [assumption|].
  rewrite HX, dt_value. split; intros H; lra.
Qed.

Lemma scenario_B_command_witness :
  commanding scenario_B = true
  /\ exists msg, snd (tick scenario_B) = Some msg
       /\ geometry_msgs.x msg
          == coeff (phi_p (fst (tick scenario_B))) i0
             + 0.75 * coeff (error_of scenario_B) i0 * dt.
Proof.
  split; [reflexivity|].
  destruct (scenario_B_command scenario_B)
    as (msg & E & X & _); try reflexivity.
  exists msg. exact (conj E X).
Defined.

(** ** Start-up gains *)

Lemma atof_arg_past (atof : string -> Q) (argv : list string) (i : nat) :
  (length argv <= i)%nat -> atof_arg atof argv i = None.
Proof.
  intros H. unfold atof_arg.
  now rewrite (proj2 (nth_error_None argv i) H).
Qed.

(** C10.  The constructor takes its gains from the arguments all together
    or not at all.  With more than one entry in the argument vector it reads
    the entries 1 to 6 without a look at their number: with more than one
    and fewer than seven entries one of these reads is past the vector and
    the start-up has no defined result; with seven or more, k_p, k_d, k_a,
    k_b, alpha1 and alpha2 are [atof] of the entries 1, 2, 3, 4, 5 and 6.
    The built-in gains k_p = 1.0, k_d = 0.004, k_a = 0.077, k_b = 7.336,
    alpha1 = 0.5 and alpha2 = 0.5 are taken only when the vector has at
    most its own first entry.  In both cases the vectors start at zero and
    the freshness flag is down. *)
Theorem startup_gains (atof : string -> Q) (argv : list string) :
  ((1 < length argv < 7)%nat ->
     DI_IT2_FLC_FM atof argv = None
     /\ exists i, (1 <= i <= 6)%nat /\ (length argv <= i)%nat
                  /\ atof_arg atof argv i = None)
  /\ ((7 <= length argv)%nat ->
        let arg i := atof (nth i argv EmptyString) in
        exists s : State,
          DI_IT2_FLC_FM atof argv = Some s
          /\ s = fresh_state (arg 1%nat) (arg 2%nat) (arg 3%nat)
                             (arg 4%nat) (arg 5%nat) (arg 6%nat)
          /\ k_p s = arg 1%nat /\ k_d s = arg 2%nat
          /\ k_a s = arg 3%nat /\ k_b s = arg 4%nat
          /\ alpha1 s = arg 5%nat /\ alpha2 s = arg 6%nat
          /\ pose s = vzero /\ pose_d s = vzero
          /\ velocity s = vzero /\ velocity_d s = vzero
          /\ error_i s = vzero /\ phi_i s = vzero
          /\ new_odometry s = false)
  /\ ((length argv <= 1)%nat ->
        exists s : State,
          DI_IT2_FLC_FM atof argv = Some s
          /\ s = fresh_state 1.0 0.004 0.077 7.336 0.5 0.5
          /\ k_p s = 1.0 /\ k_d s = 0.004
          /\ k_a s = 0.077 /\ k_b s = 7.336
          /\ alpha1 s = 0.5 /\ alpha2 s = 0.5
          /\ pose s = vzero /\ pose_d s = vzero
          /\ velocity s = vzero /\ velocity_d s = vzero
          /\ error_i s = vzero /\ phi_i s = vzero
          /\ new_odometry s = false).
Proof.
  split; [|split].
  - intros [Lo Hi]. split.
    + unfold DI_IT2_FLC_FM. rewrite (proj2 (Nat.ltb_lt _ _) Lo).
      destruct argv as [|a0 [|a1 [|a2 [|a3 [|a4 [|a5 [|a6 rest]]]]]]];
        cbn in *; try reflexivity; lia.
    + exists (length argv). repeat split; try lia. now apply atof_arg_past.
  - intros Len arg. subst arg.
    destruct argv as [|a0 [|a1 [|a2 [|a3 [|a4 [|a5 [|a6 rest]]]]]]];
      cbn in Len; try lia.
    eexists. split; [reflexivity|]. repeat split.
  - intros Len. unfold DI_IT2_FLC_FM.
    rewrite (proj2 (Nat.ltb_ge _ _) Len).
    eexists. split; [reflexivity|]. repeat split.
Qed.

(** Three argument vectors: one gain only, six gains that are not the
    built-in ones, and no gain. *)
Lemma startup_gains_witness :
  ((1 < length ["controller"; "1.0"]%string < 7)%nat
   /\ DI_IT2_FLC_FM Decimal.atof ["controller"; "1.0"]%string = None)
  /\ ((7 <= length tuned_argv)%nat
      /\ exists s, DI_IT2_FLC_FM Decimal.atof tuned_argv = Some s
           /\ k_p s == 2 /\ k_d s == 0.5 /\ k_a s == 3 /\ k_b s == 4
           /\ alpha1 s == 0.25 /\ alpha2 s == 0.75
           /\ ~ k_p s == 1.0)
  /\ ((length ["controller"]%string <= 1)%nat
      /\ exists s, DI_IT2_FLC_FM Decimal.atof ["controller"]%string = Some s
           /\ k_p s = 1.0 /\ k_b s = 7.336).
Proof.
  assert (A : (1 < length ["controller"; "1.0"]%string < 7)%nat)
    by (cbn; lia).
  assert (B : (7 <= length tuned_argv)%nat) by (cbn; lia).
  assert (C : (length ["controller"]%string <= 1)%nat) by (cbn; lia).
  split; [|split].
  - exact (conj A (proj1 (proj1 (startup_gains Decimal.atof _) A))).
  - split; [exact B|].
    destruct (proj1 (proj2 (startup_gains Decimal.atof tuned_argv)) B)
      as (s & E & _ & Kp & Kd & Ka & Kb & A1 & A2 & _).
    exists s. rewrite Kp, Kd, Ka, Kb, A1, A2.
    repeat split; try reflexivity; try assumption.
    intros H. discriminate H.
  - split; [exact C|].
    destruct (proj2 (proj2 (startup_gains Decimal.atof ["controller"]%string)) C)
      as (s & E & _ & Kp & _ & _ & Kb & _).
    exists s. exact (conj E (conj Kp Kb)).
Defined.

(** * Further properties of the controller *)

(** ** The clamp and the surface *)

(** [bound] is the clamp to [-1,1]: its values lie in the interval, it
    fixes the interval and hence is idempotent, it is monotone, and it is
    odd. *)
Theorem bound_clamp (n m : Q) :
  -1 <= bound n <= 1
  /\ bound (bound n) = bound n
  /\ (-1 <= n <= 1 -> bound n == n)
  /\ (n <= m -> bound n <= bound m)
  /\ bound (- n) == - bound n.
Proof.
  unfold bound. repeat split.
  - cmp_cases; lra.
  - cmp_cases; lra.
  - cmp_cases; try reflexivity; lra.
  - intros H. cmp_cases; lra.
  - intros H. cmp_cases; lra.
  - cmp_cases; lra.
Qed.

Lemma bound_clamp_witness :
  (-1 <= 1#2 <= 1 /\ bound (1#2) == 1#2)
  /\ (1#2 <= 3 /\ bound (1#2) <= bound 3).
Proof.
  assert (A : -1 <= 1#2 <= 1) by (split; discriminate).
  assert (B : 1#2 <= 3) by discriminate.
  destruct (bound_clamp (1#2) 3) as (_ & _ & F & M & _).
  exact (conj (conj A (F A)) (conj B (M B))).
Defined.

(** The surface is odd, and on each axis it is the identity: with one
    input at zero the output is the other input. *)
Theorem phi_odd_axes (s1 s2 : Q) :
  phi (- s1) (- s2) == - phi s1 s2
  /\ phi s1 0 == s1
  /\ phi 0 s2 == s2.
Proof.
  rewrite !phi_half, !Qabs_opp.
  change (Qabs 0) with 0. repeat split; ring.
Qed.

(** On the unit square the surface stays in [-1,1], and it saturates: at
    [sigma1 = 1] it is 1 whenever [sigma2] is not negative, at
    [sigma1 = -1] it is -1 whenever [sigma2] is not positive. *)
Theorem phi_unit_saturation (s1 s2 : Q) :
  (-1 <= s1 <= 1 -> -1 <= s2 <= 1 -> -1 <= phi s1 s2 <= 1)
  /\ (0 <= s2 -> phi 1 s2 == 1)
  /\ (s2 <= 0 -> phi (-1) s2 == -1).
Proof.
  repeat split.
  - now apply phi_unit.
  - now apply phi_unit.
  - intros H. rewrite phi_half, (Qabs_pos s2 H).
    change (Qabs 1) with 1. ring.
  - intros H. rewrite phi_half, (Qabs_neg s2 H).
    change (Qabs (-1)) with 1. ring.
Qed.

Lemma phi_unit_saturation_witness :
  (-1 <= 1#2 <= 1 /\ -1 <= phi (1#2) (1#2) <= 1)
  /\ (0 <= 1#2 /\ phi 1 (1#2) == 1)
  /\ (-1#2 <= 0 /\ phi (-1) (-1#2) == -1).
Proof.
  assert (A : -1 <= 1#2 <= 1) by (split; discriminate).
  assert (B : 0 <= 1#2) by discriminate.
  assert (C : -1#2 <= 0) by discriminate.
  split; [|split].
  - exact (conj A (proj1 (phi_unit_saturation (1#2) (1#2)) A A)).
  - exact (conj B (proj1 (proj2 (phi_unit_saturation 0 (1#2))) B)).
  - exact (conj C (proj2 (proj2 (phi_unit_saturation 0 (-1#2))) C)).
Defined.

(** With the other input in [-1,1], the surface does not decrease when
    an input grows; this holds in either argument. *)
Theorem phi_monotone (a b t : Q) :
  -1 <= t <= 1 -> a <= b ->
  phi a t <= phi b t /\ phi t a <= phi t b.
Proof.
  intros Ht Hab.
  assert (L : phi a t <= phi b t).
  { rewrite !phi_half.
    abs_cases a; abs_cases b; abs_cases t;
      rewrite ?Habs, ?Habs0, ?Habs1; nra. }
  split; [assumption|]. now rewrite (phi_sym t a), (phi_sym t b).
Qed.

Lemma phi_monotone_witness :
  -1 <= 1#2 <= 1 /\ -1 <= 1#3 /\ phi (-1) (1#2) <= phi (1#3) (1#2).
Proof.
  assert (A : -1 <= 1#2 <= 1) by (split; discriminate).
  assert (B : -1 <= 1#3) by discriminate.
  exact (conj A (conj B (proj1 (phi_monotone (-1) (1#3) (1#2) A B)))).
Defined.

(** ** Yaw unwrapping in the loop *)

Lemma denormalizeAngle_within (a reference : Q) :
  Qabs (reference - a) <= 3 * M_PI ->
  Qabs (reference - denormalizeAngle a reference) <= M_PI.
Proof.
  pose proof M_PI_pos as Hpi. intros Hnear. unfold denormalizeAngle.
  cmp_cases; revert Hnear; abs_cases (reference - a);
    rewrite ?Habs in *; intros; try (apply Qabs_case; intros); lra.
Qed.

(** Within [3 * M_PI] of the reference a second unwrapping changes
    nothing. *)
Theorem denormalizeAngle_idempotent (a reference : Q) :
  Qabs (reference - a) <= 3 * M_PI ->
  denormalizeAngle (denormalizeAngle a reference) reference
  = denormalizeAngle a reference.
Proof.
  intros Hnear. pose proof (denormalizeAngle_within a reference Hnear) as W.
  set (d := denormalizeAngle a reference) in *.
  unfold denormalizeAngle at 1.
  destruct (CmpFacts.gt_spec (Qabs (reference - d)) M_PI); [lra|reflexivity].
Qed.

Lemma denormalizeAngle_idempotent_witness :
  Qabs (-3 - 3) <= 3 * M_PI
  /\ denormalizeAngle (denormalizeAngle 3 (-3)) (-3) = denormalizeAngle 3 (-3).
Proof.
  assert (A : Qabs (-3 - 3) <= 3 * M_PI) by (vm_compute; discriminate).
  exact (conj A (denormalizeAngle_idempotent 3 (-3) A)).
Defined.

(** When the measured yaw and the desired yaw both lie in
    [[-M_PI, M_PI]], the yaw error that a command tick stores is at most
    [M_PI] in size. *)
Theorem yaw_error_within (s : State) :
  commanding s = true ->
  Qabs (coeff (pose s) i3) <= M_PI ->
  Qabs (coeff (pose_d s) i3) <= M_PI ->
  Qabs (coeff (error (fst (tick s))) i3) <= M_PI.
Proof.
  intros Hc Hp Hd. rewrite tick_commanding by assumption.
  change (Qabs (coeff (pose_d s) i3
                - denormalizeAngle (coeff (pose s) i3) (coeff (pose_d s) i3))
          <= M_PI).
  apply denormalizeAngle_within.
  revert Hp Hd.
  abs_cases (coeff (pose s) i3); abs_cases (coeff (pose_d s) i3);
    abs_cases (coeff (pose_d s) i3 - coeff (pose s) i3);
    rewrite Habs, Habs0, Habs1; intros; lra.
Qed.

(** The vehicle looks along 3 rad and is asked to look along -3 rad. *)
Lemma yaw_error_within_witness :
  let s := spinOnce [TrajectoryMsg (geometry_msgs.quaternion 0 0 0 (-3));
                     OdometryMsg (vec4 0 0 0 3) vzero] default_state in
  commanding s = true /\ Qabs (coeff (error (fst (tick s))) i3) <= M_PI.
Proof.
  cbv zeta. split; [reflexivity|].
  apply yaw_error_within; [reflexivity | |]; vm_compute; discriminate.
Defined.

(** What a tick leaves alone: the gains, the desired pose, both velocities
    and the position.  The yaw of the pose is kept or moved by one turn. *)
Theorem tick_frame (s : State) :
  let s' := fst (tick s) in
  pose_d s' = pose_d s /\ velocity s' = velocity s
  /\ velocity_d s' = velocity_d s
  /\ (k_p s', k_d s', k_a s', k_b s', alpha1 s', alpha2 s')
     = (k_p s, k_d s, k_a s, k_b s, alpha1 s, alpha2 s)
  /\ (forall i, i <> i3 -> coeff (pose s') i = coeff (pose s) i)
  /\ (coeff (pose s') i3 = coeff (pose s) i3
      \/ coeff (pose s') i3 = coeff (pose s) i3 - 2 * M_PI
      \/ coeff (pose s') i3 = coeff (pose s) i3 + 2 * M_PI).
Proof.
  unfold tick. destruct (commanding s); cbn.
  - repeat split.
    + intros i Hi. now destruct i.
    + unfold denormalizeAngle.
      destruct (Cmp.gt _ _); [destruct (Cmp.lt _ _)|]; auto.
  - repeat split; auto.
Qed.

(** ** Invariants of a run *)

Lemma command_phi_p_unit (s : State) (i : Index) :
  -1 <= coeff (phi_p (fst (command s))) i <= 1.
Proof. destruct i; cbn; apply phi_unit; apply bound_range. Qed.

(** The yaw-rate command stays in [-1,1]: on a run whose command ticks
    take their differences [pose_d - pose] and [velocity_d - velocity]
    within the range of [double], each published command has its w in
    that interval, for all gains. *)
Theorem published_w_unit (periods : list (list Message)) (s : State) :
  each_tick command_in_range periods s = true ->
  Forall (fun msg => -1 <= geometry_msgs.w msg <= 1) (snd (run periods s)).
Proof.
  intros _. revert s. induction periods as [|p periods IH]; intros s.
  - constructor.
  - rewrite run_cons. cbn [snd]. apply Forall_app. split; [|apply IH].
    unfold iterate, tick. destruct (commanding (spinOnce p s)); cbn.
    + constructor; [|constructor].
      apply phi_unit; apply bound_range.
    + constructor.
Qed.

Lemma published_w_unit_witness :
  each_tick command_in_range hover_periods default_state = true
  /\ Forall (fun msg => -1 <= geometry_msgs.w msg <= 1)
            (snd (run hover_periods default_state)).
Proof.
  exact (conj eq_refl (published_w_unit hover_periods default_state eq_refl)).
Defined.

Lemma last_cons {A : Type} (a d : A) (l : list A) :
  last (a :: l) d = last l a.
Proof.
  revert a d. induction l as [|b l IH]; intros a d; [reflexivity|].
  change (last (a :: b :: l) d) with (last (b :: l) d).
  now rewrite !IH.
Qed.

Lemma iterate_locals (pending : list Message) (s : State) :
  c (fst (iterate pending s))
  = (c s + Z.of_nat (length (published (snd (iterate pending s)))))%Z
  /\ (length (published (snd (iterate pending s))) <= 1)%nat
  /\ velocity_msg (fst (iterate pending s))
     = last (published (snd (iterate pending s))) (velocity_msg s).
Proof.
  destruct (spinOnce_keeps pending s) as (_ & _ & Cs & Vs).
  unfold iterate, tick. destruct (commanding (spinOnce pending s)); cbn.
  - rewrite Cs. repeat split; lia.
  - rewrite Cs, Vs. repeat split; lia.
Qed.

(** The locals of [run] over a run, with [c] in [Z]. *)
Lemma run_locals (periods : list (list Message)) (s : State) :
  c (fst (run periods s))
  = (c s + Z.of_nat (length (snd (run periods s))))%Z
  /\ (length (snd (run periods s)) <= length periods)%nat
  /\ velocity_msg (fst (run periods s))
     = last (snd (run periods s)) (velocity_msg s).
Proof.
  revert s. induction periods as [|p periods IH]; intros s.
  - cbn. repeat split; lia.
  - rewrite run_cons. cbn [fst snd].
    destruct (IH (fst (iterate p s))) as (C & L & V).
    destruct (iterate_locals p s) as (C1 & L1 & V1).
    rewrite C, V, C1, V1, length_app.
    repeat split; try (cbn [length]; lia).
    destruct (published (snd (iterate p s))) as [|msg [|? ?]];
      cbn in L1; try lia; [reflexivity|].
    change (last [msg] (velocity_msg s)) with msg.
    symmetry. apply last_cons.
Qed.

(** The locals of [run] follow the publications.  As long as the [int]
    counter [c] cannot overflow (it starts in the range of [int] and has
    room for one increment a period), it has grown by the number of
    published commands and is still in the range of [int]; at most one
    command is published a period; and [velocity_msg] is the last command
    published (the initial message if there was none). *)
Theorem command_counter (periods : list (list Message)) (s : State) :
  (- 2 ^ 31 <= c s)%Z ->
  (c s + Z.of_nat (length periods) < 2 ^ 31)%Z ->
  c (fst (run periods s))
  = (c s + Z.of_nat (length (snd (run periods s))))%Z
  /\ (- 2 ^ 31 <= c (fst (run periods s)) < 2 ^ 31)%Z
  /\ (length (snd (run periods s)) <= length periods)%nat
  /\ velocity_msg (fst (run periods s))
     = last (snd (run periods s)) (velocity_msg s).
Proof.
  intros Lo Hi. destruct (run_locals periods s) as (C & L & V).
  repeat split; try assumption; lia.
Qed.

Lemma command_counter_witness :
  (- 2 ^ 31 <= c default_state)%Z
  /\ (c default_state + Z.of_nat (length hover_periods) < 2 ^ 31)%Z
  /\ c (fst (run hover_periods default_state))
     = (c default_state
        + Z.of_nat (length (snd (run hover_periods default_state))))%Z.
Proof.
  assert (A : (- 2 ^ 31 <= c default_state)%Z) by (cbv; discriminate).
  assert (B : (c default_state + Z.of_nat (length hover_periods) < 2 ^ 31)%Z)
    by reflexivity.
  exact (conj A (conj B
           (proj1 (command_counter hover_periods default_state A B)))).
Defined.

Lemma tick_clears (s : State) : new_odometry (fst (tick s)) = false.
Proof. unfold tick. now destruct (commanding s). Qed.

Lemma existsb_false_forallb {A : Type} (f : A -> bool) (l : list A) :
  existsb f l = false -> forallb (fun a => negb (f a)) l = true.
Proof.
  induction l as [|a l IH]; [reflexivity|]. cbn. intros H.
  apply orb_false_elim in H as [Ha Hl]. now rewrite Ha, IH.
Qed.

(** A period without odometry, entered with the flag down, publishes
    nothing. *)
Lemma iterate_without_odometry (pending : list Message) (s : State) :
  new_odometry s = false -> existsb is_odometry pending = false ->
  snd (iterate pending s) = None.
Proof.
  intros F E. unfold iterate. rewrite tick_skipped; [reflexivity|].
  apply stale_not_commanding.
  now rewrite spinOnce_no_odometry by now apply existsb_false_forallb.
Qed.

(** No odometry, no command: entered with the freshness flag down (as the
    constructor and every tick leave it), a run publishes at most as many
    commands as it has periods in which odometry arrived. *)
Theorem commands_need_odometry (periods : list (list Message)) (s : State) :
  new_odometry s = false ->
  (length (snd (run periods s)) <= odometry_periods periods)%nat.
Proof.
  unfold odometry_periods. revert s.
  induction periods as [|p periods IH]; intros s F.
  - cbn. lia.
  - rewrite run_cons. cbn [snd filter]. rewrite length_app.
    specialize (IH (fst (iterate p s)) (tick_clears _)).
    destruct (iterate_locals p s) as (_ & L1 & _).
    destruct (existsb is_odometry p) eqn:E.
    + cbn [length]. lia.
    + rewrite (iterate_without_odometry p s F E). cbn. lia.
Qed.

Lemma commands_need_odometry_witness :
  new_odometry default_state = false
  /\ (length (snd (run (released_periods ++ hover_periods) default_state))
      <= odometry_periods (released_periods ++ hover_periods))%nat.
Proof.
  exact (conj eq_refl
           (commands_need_odometry (released_periods ++ hover_periods)
              default_state eq_refl)).
Defined.

Lemma iterate_phi_i (pending : list Message) (s : State) (i : Index) :
  Qabs (coeff (phi_i (fst (iterate pending s))) i - coeff (phi_i s) i)
  <= inject_Z (Z.of_nat (length (published (snd (iterate pending s))))) * dt.
Proof.
  destruct (spinOnce_keeps pending s) as (_ & P & _).
  unfold iterate, tick. destruct (commanding (spinOnce pending s)) eqn:Hc.
  - pose proof (command_phi_p_unit (spinOnce pending s) i) as U.
    assert (E : coeff (phi_i (fst (command (spinOnce pending s)))) i
                == coeff (phi_i s) i
                   + coeff (phi_p (fst (command (spinOnce pending s)))) i * dt).
    { rewrite <- P. destruct i; reflexivity. }
    change (Qabs (coeff (phi_i (fst (command (spinOnce pending s)))) i
                  - coeff (phi_i s) i) <= 1 * dt).
    rewrite E, dt_value. apply Qabs_case; intros; lra.
  - cbn [fst snd published length].
    change (phi_i (clear_odometry (spinOnce pending s)))
      with (phi_i (spinOnce pending s)).
    rewrite P. change (inject_Z (Z.of_nat 0)) with 0.
    apply Qabs_case; intros; lra.
Qed.

(** The fuzzy-output integral moves by at most [dt] a command: over a run
    whose command ticks take their differences within the range of
    [double], on each axis, it has moved from its initial value by at most
    the number of published commands times [dt]. *)
Theorem phi_i_growth (periods : list (list Message)) (s : State) (i : Index) :
  each_tick command_in_range periods s = true ->
  Qabs (coeff (phi_i (fst (run periods s))) i - coeff (phi_i s) i)
  <= inject_Z (Z.of_nat (length (snd (run periods s)))) * dt.
Proof.
  intros _.
  revert s. induction periods as [|p periods IH]; intros s.
  - cbn [run fst snd length]. change (inject_Z (Z.of_nat 0)) with 0.
    apply Qabs_case; intros; lra.
  - rewrite run_cons. cbn [fst snd].
    pose proof (IH (fst (iterate p s))) as A.
    pose proof (iterate_phi_i p s i) as B.
    rewrite length_app, Nat2Z.inj_add, inject_Z_plus.
    set (x := coeff (phi_i (fst (run periods (fst (iterate p s))))) i) in *.
    set (y := coeff (phi_i (fst (iterate p s))) i) in *.
    set (z := coeff (phi_i s) i) in *.
    assert (T : Qabs (x - z) <= Qabs (x - y) + Qabs (y - z)).
    { assert (E : x - z == (x - y) + (y - z)) by ring.
      rewrite E. apply Qabs_triangle. }
    lra.
Qed.

Lemma phi_i_growth_witness :
  each_tick command_in_range hover_periods default_state = true
  /\ Qabs (coeff (phi_i (fst (run hover_periods default_state))) i0
           - coeff (phi_i default_state) i0)
     <= inject_Z (Z.of_nat (length (snd (run hover_periods default_state))))
        * dt.
Proof.
  exact (conj eq_refl (phi_i_growth hover_periods default_state i0 eq_refl)).
Defined.

Lemma bound_eq (a b : Q) : a == b -> bound a == bound b.
Proof. intros E. unfold bound. cmp_cases; lra. Qed.

Lemma phi_eq (a a' b b' : Q) : a == a' -> b == b' -> phi a b == phi a' b'.
Proof. intros Ea Eb. unfold phi. now rewrite Ea, Eb. Qed.

(** An axis at rest: on a command tick with zero position error and zero
    velocity error on an axis, the surface value of that axis is zero and
    neither integral of that axis moves. *)
Theorem equilibrium_tick (s : State) (i : Index) :
  commanding s = true ->
  coeff (error_of s) i == 0 ->
  coeff (velocity_d s) i == coeff (velocity s) i ->
  let s' := fst (tick s) in
  coeff (phi_p s') i == 0
  /\ coeff (error_i s') i == coeff (error_i s) i
  /\ coeff (phi_i s') i == coeff (phi_i s) i.
Proof.
  intros Hc He Hv s'. subst s'. rewrite tick_commanding by assumption.
  assert (P : coeff (phi_p (fst (command s))) i == 0).
  { transitivity (phi (bound (k_p s * coeff (error_of s) i))
                      (bound (k_d s * coeff (vsub (velocity_d s) (velocity s)) i))).
    { destruct i; reflexivity. }
    transitivity (phi 0 0); [|reflexivity].
    apply phi_eq.
    - transitivity (bound 0); [|reflexivity]. apply bound_eq.
      rewrite He. ring.
    - transitivity (bound 0); [|reflexivity]. apply bound_eq.
      assert (V : coeff (vsub (velocity_d s) (velocity s)) i == 0).
      { transitivity (coeff (velocity_d s) i - coeff (velocity s) i);
          [destruct i; reflexivity | rewrite Hv; ring]. }
      rewrite V. ring. }
  repeat split.
  - exact P.
  - transitivity (coeff (error_i s) i + coeff (error_of s) i * dt);
      [destruct i; reflexivity | rewrite He; ring].
  - transitivity (coeff (phi_i s) i + coeff (phi_p (fst (command s))) i * dt);
      [destruct i; reflexivity | rewrite P; ring].
Qed.

(** In [first_sample] the vehicle is at the origin and the trajectory asks
    for yaw 0. *)
Lemma equilibrium_tick_witness :
  commanding first_sample = true
  /\ coeff (error_of first_sample) i3 == 0
  /\ coeff (phi_p (fst (tick first_sample))) i3 == 0.
Proof.
  assert (A : coeff (error_of first_sample) i3 == 0) by reflexivity.
  assert (B : coeff (velocity_d first_sample) i3
              == coeff (velocity first_sample) i3) by reflexivity.
  exact (conj eq_refl
           (conj A (proj1 (equilibrium_tick first_sample i3 eq_refl A B)))).
Defined.

(** ** Callbacks and start-up *)

(** The four callbacks write disjoint parts of the state: messages for
    different callbacks can be delivered in either order, and of two
    messages for the same callback only the later one is seen. *)
Theorem callbacks_commute_overwrite (s : State) (m1 m2 : Message) :
  (same_callback m1 m2 = false ->
     deliver (deliver s m1) m2 = deliver (deliver s m2) m1)
  /\ (same_callback m1 m2 = true ->
        deliver (deliver s m1) m2 = deliver s m2).
Proof.
  split; intros H; destruct m1, m2; cbn in H; try discriminate H;
    reflexivity.
Qed.

Lemma callbacks_commute_overwrite_witness :
  deliver (deliver default_state (OdometryMsg (vec4 1 1 1 0) vzero))
          (TrajectoryMsg (geometry_msgs.quaternion 1 2 3 0))
  = deliver (deliver default_state
               (TrajectoryMsg (geometry_msgs.quaternion 1 2 3 0)))
            (OdometryMsg (vec4 1 1 1 0) vzero)
  /\ deliver (deliver default_state
                (TrajectoryMsg (geometry_msgs.quaternion 0 0 (-10) 0)))
             (TrajectoryMsg (geometry_msgs.quaternion 1 2 3 0))
     = deliver default_state (TrajectoryMsg (geometry_msgs.quaternion 1 2 3 0)).
Proof.
  split.
  - exact (proj1 (callbacks_commute_overwrite default_state
                    (OdometryMsg (vec4 1 1 1 0) vzero)
                    (TrajectoryMsg (geometry_msgs.quaternion 1 2 3 0)))
                 eq_refl).
  - exact (proj2 (callbacks_commute_overwrite default_state
                    (TrajectoryMsg (geometry_msgs.quaternion 0 0 (-10) 0))
                    (TrajectoryMsg (geometry_msgs.quaternion 1 2 3 0)))
                 eq_refl).
Defined.

Lemma spinOnce_cons (m : Message) (pending : list Message) (s : State) :
  spinOnce (m :: pending) s = spinOnce pending (deliver s m).
Proof. reflexivity. Qed.

(** Only [trajectoryCallback] writes the desired pose. *)
Lemma spinOnce_no_trajectory (pending : list Message) (s : State) :
  existsb is_trajectory pending = false ->
  pose_d (spinOnce pending s) = pose_d s.
Proof.
  revert s. induction pending as [|m pending IH]; intros s H; [reflexivity|].
  cbn in H. apply orb_false_elim in H as [Hm H].
  rewrite spinOnce_cons, (IH _ H). destruct m; try reflexivity.
  discriminate Hm.
Qed.

(** No callback lowers the freshness flag. *)
Lemma spinOnce_flag_stays (pending : list Message) (s : State) :
  new_odometry s = true -> new_odometry (spinOnce pending s) = true.
Proof.
  revert s. induction pending as [|m pending IH]; intros s H; [assumption|].
  rewrite spinOnce_cons. apply IH. now destruct m.
Qed.

Lemma spinOnce_odometry_raises (pending : list Message) (s : State) :
  existsb is_odometry pending = true ->
  new_odometry (spinOnce pending s) = true.
Proof.
  revert s. induction pending as [|m pending IH]; intros s H; [discriminate H|].
  rewrite spinOnce_cons. cbn in H. apply orb_prop in H as [Hm|H].
  - apply spinOnce_flag_stays. destruct m; try discriminate Hm. reflexivity.
  - now apply IH.
Qed.

(** Whatever the arguments, the constructor leaves the desired pose at
    zero. *)
Lemma constructor_pose_d (atof : string -> Q) (argv : list string) (s0 : State) :
  DI_IT2_FLC_FM atof argv = Some s0 -> pose_d s0 = vzero.
Proof.
  unfold DI_IT2_FLC_FM. destruct (1 <? length argv)%nat.
  - destruct (atof_arg atof argv 1), (atof_arg atof argv 2),
      (atof_arg atof argv 3), (atof_arg atof argv 4),
      (atof_arg atof argv 5), (atof_arg atof argv 6);
      intros H; try discriminate H.
    injection H as <-. reflexivity.
  - intros H. injection H as <-. reflexivity.
Qed.

(** The controller does not wait for a trajectory after start-up: the
    constructor sets the desired pose to zero, whose z is above the
    sentinel, so when the first period brings odometry and no trajectory
    message, its tick already publishes a command (towards the origin). *)
Theorem startup_commands_without_trajectory
  (atof : string -> Q) (argv : list string)
  (pending : list Message) (rest : list (list Message)) :
  DI_IT2_FLC_FM atof argv <> None ->
  existsb is_odometry pending = true ->
  existsb is_trajectory pending = false ->
  exists (final : State) (msg : geometry_msgs.Quaternion)
         (later : list geometry_msgs.Quaternion),
    main atof argv (pending :: rest) = Some (final, msg :: later).
Proof.
  intros Hs Ho Ht. unfold main.
  destruct (DI_IT2_FLC_FM atof argv) as [s0|] eqn:E; [|congruence].
  cbn [option_map]. rewrite run_cons.
  assert (Hc : commanding (spinOnce pending s0) = true).
  { unfold commanding.
    rewrite (spinOnce_no_trajectory pending s0 Ht),
      (constructor_pose_d atof argv s0 E),
      (spinOnce_odometry_raises pending s0 Ho).
    reflexivity. }
  unfold iterate. rewrite (tick_commanding _ Hc). cbn [fst snd published app].
  eexists _, _, _. reflexivity.
Qed.

Lemma startup_commands_without_trajectory_witness :
  DI_IT2_FLC_FM Decimal.atof full_argv <> None
  /\ exists final msg later,
       main Decimal.atof full_argv [fresh_period] = Some (final, msg :: later).
Proof.
  assert (A : DI_IT2_FLC_FM Decimal.atof full_argv <> None)
    by (cbv; discriminate).
  exact (conj A
           (startup_commands_without_trajectory Decimal.atof full_argv
              fresh_period [] A eq_refl eq_refl)).
Defined.

(** ** The integrals have no reset *)

Lemma published_nil_skipped (s : State) :
  published (snd (tick s)) = [] -> commanding s = false.
Proof.
  unfold tick. destruct (commanding s); [|reflexivity].
  cbn. discriminate.
Qed.

(** Both integrals change in command ticks only: over a run that publishes
    nothing they are what they were, whatever the callbacks received, new
    gains and new trajectories included. *)
Theorem integrals_change_only_on_commands
  (periods : list (list Message)) (s : State) :
  snd (run periods s) = [] ->
  error_i (fst (run periods s)) = error_i s
  /\ phi_i (fst (run periods s)) = phi_i s.
Proof.
  revert s. induction periods as [|p periods IH]; intros s H.
  - split; reflexivity.
  - rewrite run_cons in *. cbn [fst snd] in *.
    apply app_eq_nil in H as [H1 H2].
    destruct (IH _ H2) as [A B]. rewrite A, B.
    destruct (spinOnce_keeps p s) as (A' & B' & _).
    unfold iterate in *. apply published_nil_skipped in H1.
    rewrite (tick_skipped _ H1). cbn [fst].
    change (error_i (clear_odometry (spinOnce p s)))
      with (error_i (spinOnce p s)).
    change (phi_i (clear_odometry (spinOnce p s)))
      with (phi_i (spinOnce p s)).
    now rewrite A', B'.
Qed.

Lemma integrals_change_only_on_commands_witness :
  snd (run sentinel_periods default_state) = []
  /\ error_i (fst (run sentinel_periods default_state))
     = error_i default_state.
Proof.
  exact (conj eq_refl
           (proj1 (integrals_change_only_on_commands sentinel_periods
                     default_state eq_refl))).
Defined.
